(** * HuMo Lipsync Suppress: the band-gain editor of [nodes.py]

    A shallow embedding of [HuMoLipsyncSuppress.apply] and of the tensor
    operations it calls, followed by the properties of the editor.

    Tensor elements are real numbers: rounding, infinities and NaN of the
    floating-point element types are outside this model.  A second
    embedding of the numeric stages, on binary64 elements (the dtype
    torch.float64), is there for what the real numbers cannot show:
    overflow and NaN.  A tensor is its
    shape together with its elements in row-major order, as a contiguous
    torch tensor stores them.  Python objects live in a heap indexed by
    references, so that object identity, the shallow copy of the container
    and the in-place item assignment are explicit. *)

From Stdlib Require Import Reals Lra DecimalString.
From Stdlib Require Floats.PrimFloat.
From stdpp Require Import gmap strings list.

(** Comparisons of reals, as the Python comparisons of floats. *)
#[global] Instance Rgt_decision (a b : R) : Decision (a > b)%R := Rgt_dec a b.
#[global] Instance Req_decision : EqDecision R := Req_dec_T.

(** ** Tensors *)

Record tensor := Tensor { shape : list nat; data : list R }.

(** [x.ndim] *)
Definition ndim (x : tensor) : nat := length (shape x).

(** [x.shape[i]]; only read at positions that exist. *)
Definition dim (x : tensor) (i : nat) : nat := nth i (shape x) 0.

(** Number of elements of a tensor of shape [s]. *)
Definition numel (s : list nat) : nat := foldr Nat.mul 1 s.

(** [x[t]]: the [t]-th slice along axis 0. *)
Definition index0 (x : tensor) (t : nat) : tensor :=
  let sh := tail (shape x) in
  Tensor sh (take (numel sh) (drop (t * numel sh) (data x))).

(** [torch.stack(l, dim=0)] for a non-empty list of tensors of one shape. *)
Definition stack0 (l : list tensor) : tensor :=
  Tensor (length l :: match l with s :: _ => shape s | [] => [] end)
         (concat (data <$> l)).

(** Elementwise operation with a scalar (a 0-dim tensor or a Python float). *)
Definition tmap (f : R → R) (x : tensor) : tensor :=
  Tensor (shape x) (f <$> data x).

(** Elementwise operation on two tensors of the same shape. *)
Definition tzip (f : R → R → R) (x y : tensor) : tensor :=
  Tensor (shape x) (zip_with f (data x) (data y)).

(** [x * g] for [x] of shape [T,5,C] and [g] of shape [1,5,1]: the element
    at row-major position [i] belongs to band [(i / C) mod 5]. *)
Definition mul_bands (x : tensor) (g : list R) : tensor :=
  let C := dim x 2 in
  Tensor (shape x) (imap (λ i v, v * nth ((i / C) mod 5) g 0)%R (data x)).

(** [x * r] for [x] of shape [T,5,C] and [r] of shape [T,5,1]: the element
    at row-major position [i] belongs to row [i / C]. *)
Definition mul_rows (x r : tensor) : tensor :=
  let C := dim x 2 in
  Tensor (shape x) (imap (λ i v, v * nth (i / C) (data r) 0)%R (data x)).

Definition sum (l : list R) : R := foldr Rplus 0%R l.

(** [mean] over a list of elements. *)
Definition mean (l : list R) : R := (sum l / INR (length l))%R.

(** [x.std()]: torch's default is the unbiased estimator (correction = 1),
    whose divisor is [max(0, N - 1)]. *)
Definition std (l : list R) : R :=
  let m := mean l in
  sqrt (sum ((λ v, (v - m) ^ 2)%R <$> l) / INR (length l - 1)).

(** [x.clamp(lo, hi)] on one element: [min(max(v, lo), hi)]. *)
Definition clamp (lo hi v : R) : R := Rmin (Rmax v lo) hi.

(** ** The preset: the class attributes of [HuMoLipsyncSuppress] *)

Record preset := Preset {
  PRESET_GAINS : list R;
  PRESET_EMA_BETA : R;
  PRESET_PRESERVE_RMS : bool;
  PRESET_ALPHA_MIX : R;
  PRESET_GLOBAL_GAIN : R;
  PRESET_CLAMP_STD : R
}.

Definition HuMoLipsyncSuppress : preset :=
  {| PRESET_GAINS := [4; 4; 1/2; 1/100; 1/100]%R;
     PRESET_EMA_BETA := (9/10)%R;
     PRESET_PRESERVE_RMS := false;
     PRESET_ALPHA_MIX := 1%R;
     PRESET_GLOBAL_GAIN := 1%R;
     PRESET_CLAMP_STD := 0%R |}.

(** ** The stages of [apply] *)

(** [_rms(x, eps)]: [x.pow(2).mean(dim=-1, keepdim=True).sqrt().clamp_min(eps)]. *)
Definition _rms (x : tensor) (eps : R) : tensor :=
  let C := default 0 (last (shape x)) in
  Tensor (removelast (shape x) ++ [1])
         ((λ r, Rmax (sqrt (mean ((λ v, v ^ 2)%R <$> take C (drop (r * C) (data x))))) eps)
            <$> seq 0 (numel (removelast (shape x)))).

(** One turn of the loop [for t in range(1, x.shape[0])]: the state is the
    running [s] and the list [out_seq]. *)
Definition ema_step (x : tensor) (beta one_m : R)
    (st : tensor * list tensor) (t : nat) : tensor * list tensor :=
  let s := tzip Rplus (tmap (Rmult beta) st.1) (tmap (Rmult one_m) (index0 x t)) in
  (s, st.2 ++ [s]).

(** Temporal EMA smoothing. *)
Definition ema_smooth (p : preset) (x : tensor) : tensor :=
  if bool_decide (1 < dim x 0) && bool_decide (PRESET_EMA_BETA p > 0)%R then
    let s := index0 x 0 in
    let beta := PRESET_EMA_BETA p in
    let one_m := (1 - beta)%R in
    let st := foldl (ema_step x beta one_m) (s, [s]) (seq 1 (dim x 0 - 1)) in
    stack0 st.2
  else x.

(** Gains, then the RMS preservation when the preset asks for it. *)
Definition edit (p : preset) (x_orig : tensor) : tensor :=
  let x_smooth := ema_smooth p x_orig in
  let x_edit := mul_bands x_smooth (PRESET_GAINS p) in
  if PRESET_PRESERVE_RMS p then
    let rms_orig := _rms x_orig (1/1000000) in
    let rms_edit := _rms x_edit (1/1000000) in
    mul_rows x_edit (tzip Rdiv rms_orig rms_edit)
  else x_edit.

(** Residual blend. *)
Definition blend (p : preset) (x_orig x_edit : tensor) : tensor :=
  let alpha := PRESET_ALPHA_MIX p in
  tzip Rplus (tmap (Rmult (1 - alpha)) x_orig) (tmap (Rmult alpha) x_edit).

(** Global gain. *)
Definition global_gain (p : preset) (x_mixed : tensor) : tensor :=
  if bool_decide (PRESET_GLOBAL_GAIN p ≠ 1%R)
  then tmap (λ v, v * PRESET_GLOBAL_GAIN p)%R x_mixed
  else x_mixed.

Definition clamp_lo (p : preset) (x_mixed : tensor) : R :=
  (mean (data x_mixed) - PRESET_CLAMP_STD p * Rmax (std (data x_mixed)) (1/1000000))%R.

Definition clamp_hi (p : preset) (x_mixed : tensor) : R :=
  (mean (data x_mixed) + PRESET_CLAMP_STD p * Rmax (std (data x_mixed)) (1/1000000))%R.

(** Clamp. *)
Definition clamp_stage (p : preset) (x_mixed : tensor) : tensor :=
  if bool_decide (PRESET_CLAMP_STD p > 0)%R
  then tmap (clamp (clamp_lo p x_mixed) (clamp_hi p x_mixed)) x_mixed
  else x_mixed.

(** [x_mixed] as it reaches the clamp. *)
Definition pre_clamp (p : preset) (x : tensor) : tensor :=
  global_gain p (blend p x (edit p x)).

(** The numeric work of [apply] on the fetched tensor. *)
Definition pipeline (p : preset) (x : tensor) : tensor :=
  clamp_stage p (pre_clamp p x).

(** ** The numeric stages on binary64 elements

    The stages of [apply] once more, for an input of dtype torch.float64:
    every constant is materialised in the dtype of the input, so all the
    arithmetic is IEEE 754 binary64.  torch does not fix the order of the
    additions inside a reduction ([mean], [std]); the sums here add from
    left to right. *)

Module F64.
Import PrimFloat.




























End F64.

(** ** Python objects, exceptions and the heap *)

Definition loc := positive.

(** What a reference can point to: a dict from string keys to references, a
    tensor, or any other Python object (opaque here). *)
Inductive obj :=
  | ODict (d : gmap string loc)
  | OTensor (x : tensor)
  | OOther (tag : nat).

Inductive exn :=
  | ValueError (msg : string)
  | TypeError (msg : string)
  | AttributeError (msg : string)
  | RuntimeError (msg : string).

Abbreviation heap := (gmap loc obj).

(** Computations that read and extend the heap and may raise. *)
Definition M (A : Type) : Type := heap → (exn + A) * heap.

#[global] Instance M_ret : MRet M := λ A a h, (inr a, h).
#[global] Instance M_bind : MBind M := λ A B f m h,
  match m h with
  | (inr a, h') => f a h'
  | (inl e, h') => (inl e, h')
  end.

Definition raise {A} (e : exn) : M A := λ h, (inl e, h).

(** A new object at a reference not in use. *)
Definition alloc (o : obj) : M loc := λ h,
  let l := fresh (dom h) in (inr l, <[l := o]> h).

(** [dict(r)]: the entries of the dict at [r].  Python's [dict()] also
    accepts other mappings and iterables of pairs; those are not modelled,
    and the TypeError here stands for an object that is none of them. *)
Definition dict_items (r : loc) : M (gmap string loc) := λ h,
  match h !! r with
  | Some (ODict d) => (inr d, h)
  | _ => (inl (TypeError "object is not a mapping"), h)
  end.

(** [k in r] for a dict at [r]. *)
Definition dict_contains (r : loc) (k : string) : M bool := λ h,
  match h !! r with
  | Some (ODict d) => (inr (bool_decide (is_Some (d !! k))), h)
  | _ => (inl (TypeError "object is not a mapping"), h)
  end.

(** [r[k]] for a dict at [r] that has the key. *)
Definition dict_getitem (r : loc) (k : string) : M loc := λ h,
  match h !! r with
  | Some (ODict d) =>
      match d !! k with
      | Some v => (inr v, h)
      | None => (inl (RuntimeError "KeyError"), h)
      end
  | _ => (inl (TypeError "object is not a mapping"), h)
  end.

(** [r[k] = v]: in-place update of the dict at [r]. *)
Definition dict_setitem (r : loc) (k : string) (v : loc) : M unit := λ h,
  match h !! r with
  | Some (ODict d) => (inr (), <[r := ODict (<[k := v]> d)]> h)
  | _ => (inl (TypeError "object does not support item assignment"), h)
  end.

(** Reading the tensor behind a reference; [x.ndim] on anything else fails. *)
Definition as_tensor (r : loc) : M tensor := λ h,
  match h !! r with
  | Some (OTensor x) => (inr x, h)
  | _ => (inl (AttributeError "object has no attribute 'ndim'"), h)
  end.

(** ** Formatting of the shape in the error message *)

Definition str_nat (n : nat) : string := NilZero.string_of_uint (Nat.to_uint n).

Fixpoint join_comma (l : list string) : string :=
  match l with
  | [] => EmptyString
  | [a] => a
  | a :: l' => a +:+ ", " +:+ join_comma l'
  end.

(** [str(tuple(x.shape))]: Python writes a one-element tuple as [(n,)]. *)
Definition str_tuple (s : list nat) : string :=
  match s with
  | [n] => "(" +:+ str_nat n +:+ ",)"
  | _ => "(" +:+ join_comma (str_nat <$> s) +:+ ")"
  end.

(** ** [HuMoLipsyncSuppress.apply] *)

Definition key : string := "humo_audio_emb".

Definition missing_key_msg : string :=
  "Missing key 'humo_audio_emb' in WANVIDIMAGE_EMBEDS".

Definition shape_msg (x : tensor) : string :=
  "humo_audio_emb expected shape [T,5,C], got " +:+ str_tuple (shape x).

(** The method returns the one-element tuple [(embeds,)]; the model returns
    its only component.  [p] holds the class attributes read through [self]. *)
Definition apply (p : preset) (image_embeds : loc) (enabled : bool) : M loc :=
  if negb enabled then mret image_embeds
  else
    d ← dict_items image_embeds;
    embeds ← alloc (ODict d);
    has ← dict_contains embeds key;
    if negb has then raise (ValueError missing_key_msg)
    else
      r ← dict_getitem embeds key;
      x ← as_tensor r;
      if negb (bool_decide (ndim x = 3)) || negb (bool_decide (dim x 1 = 5))
      then raise (ValueError (shape_msg x))
      else if negb (bool_decide (length (PRESET_GAINS p) = 5))
      then raise (RuntimeError "shape '[1, 5, 1]' is invalid for input")
      else
        out ← alloc (OTensor (pipeline p x));
        _ ← dict_setitem embeds key out;
        mret embeds.

(** ** The smoothing recurrence as the specification words it *)

(** [s_0 = x_0] and [s_t = beta * s_{t-1} + (1 - beta) * x_t]. *)
Fixpoint ema_spec (beta : R) (x : tensor) (t : nat) : tensor :=
  match t with
  | 0 => index0 x 0
  | S t' => tzip Rplus (tmap (Rmult beta) (ema_spec beta x t'))
                       (tmap (Rmult (1 - beta)) (index0 x t))
  end.

(** ** The clamp interval as the specification words it *)




(** ** Well-formed tensors and the objects [apply] creates *)

(** A tensor of shape [sh] holding exactly [numel sh] elements. *)
Definition has_shape (sh : list nat) (x : tensor) : Prop :=
  shape x = sh ∧ length (data x) = numel sh.

(** The reference of the shallow copy and the heap right after the copy. *)
Definition copy_ref (h : heap) : loc := fresh (dom h).

Definition copy_heap (h : heap) (d : gmap string loc) : heap :=
  <[copy_ref h := ODict d]> h.

(** The reference of the edited tensor. *)
Definition out_ref (h : heap) (d : gmap string loc) : loc :=
  fresh (dom (copy_heap h d)).

(** ** Example inputs *)

(** The input of the end-to-end example: shape [2, 5, 4], frame 0 all ones
    and frame 1 all twos. *)
Definition x_example : tensor :=
  Tensor [2; 5; 4] (replicate 20 1%R ++ replicate 20 2%R).

(** The expected output on [x_example]: frame 0 is the gain of each band,
    frame 1 is 1.10 times the gain of each band. *)
Definition y_example : tensor :=
  Tensor [2; 5; 4]
    ([4; 4; 4; 4; 4; 4; 4; 4; 1/2; 1/2; 1/2; 1/2;
      1/100; 1/100; 1/100; 1/100; 1/100; 1/100; 1/100; 1/100;
      22/5; 22/5; 22/5; 22/5; 22/5; 22/5; 22/5; 22/5;
      11/20; 11/20; 11/20; 11/20;
      11/1000; 11/1000; 11/1000; 11/1000; 11/1000; 11/1000; 11/1000; 11/1000]%R).

(** A sequence of a single frame. *)
Definition x_single : tensor := Tensor [1; 5; 2] (replicate 10 3%R).

(** One frame, one channel per band. *)
Definition x_clamp : tensor := Tensor [1; 5; 1] [1; -1; 8; -400; 0]%R.

(** The preset with RMS preservation switched on. *)
Definition preset_rms : preset :=
  {| PRESET_GAINS := [4; 4; 1/2; 1/100; 1/100]%R;
     PRESET_EMA_BETA := (9/10)%R;
     PRESET_PRESERVE_RMS := true;
     PRESET_ALPHA_MIX := 1%R;
     PRESET_GLOBAL_GAIN := 1%R;
     PRESET_CLAMP_STD := 0%R |}.


(** The preset with the clamp at one standard deviation. *)
Definition preset_clamp : preset :=
  {| PRESET_GAINS := [4; 4; 1/2; 1/100; 1/100]%R;
     PRESET_EMA_BETA := (9/10)%R;
     PRESET_PRESERVE_RMS := false;
     PRESET_ALPHA_MIX := 1%R;
     PRESET_GLOBAL_GAIN := 1%R;
     PRESET_CLAMP_STD := 1%R |}.

(** The entries of a dict with an unrelated key, without and with the key
    of the audio embedding. *)
Definition entries_without : gmap string loc := {["clip_context" := 3%positive]}.
Definition entries_with : gmap string loc := <[key := 2%positive]> entries_without.

(** A container at reference 1 holding the tensor [x] (reference 2) under
    the key and an unrelated object (reference 3) under another key. *)
Definition container_with (x : tensor) : heap :=
  <[1%positive := ODict entries_with]>
    (<[2%positive := OTensor x]> {[3%positive := OOther 0]}).

(** A container at reference 1 without the key. *)
Definition container_without : heap :=
  <[1%positive := ODict entries_without]> {[3%positive := OOther 0]}.

(** Equality of two explicit lists of reals, element by element. *)
Ltac list_of_reals :=
  repeat (apply (f_equal2 (@cons R)); [lra |]); reflexivity.

(** ** Devices for stating properties of the stages *)

(** The preset [p] with another global gain. *)
Definition with_global_gain (p : preset) (k : R) : preset :=
  {| PRESET_GAINS := PRESET_GAINS p;
     PRESET_EMA_BETA := PRESET_EMA_BETA p;
     PRESET_PRESERVE_RMS := PRESET_PRESERVE_RMS p;
     PRESET_ALPHA_MIX := PRESET_ALPHA_MIX p;
     PRESET_GLOBAL_GAIN := k;
     PRESET_CLAMP_STD := PRESET_CLAMP_STD p |}.

(** [x_edit] right after the gains, before the RMS preservation. *)
Definition gained (p : preset) (x : tensor) : tensor :=
  mul_bands (ema_smooth p x) (PRESET_GAINS p).

(** ** Shapes and lengths *)

Section shapes.
Implicit Types (x y : tensor) (l : list tensor) (sh : list nat).

Lemma tensor_eq x y : shape x = shape y → data x = data y → x = y.
Proof. destruct x, y; simpl; congruence. Qed.

Lemma has_shape_tmap f sh x : has_shape sh x → has_shape sh (tmap f x).
Proof. intros [Hs Hl]. split; simpl; [done | by rewrite length_fmap]. Qed.

Lemma has_shape_tzip f sh x y :
  has_shape sh x → has_shape sh y → has_shape sh (tzip f x y).
Proof.
  intros [Hs Hl] [_ Hl']. split; simpl; [done |].
  rewrite length_zip_with. lia.
Qed.

Lemma has_shape_mul_bands sh x g : has_shape sh x → has_shape sh (mul_bands x g).
Proof. intros [Hs Hl]. split; simpl; [done | by rewrite length_imap]. Qed.

Lemma has_shape_mul_rows sh x r : has_shape sh x → has_shape sh (mul_rows x r).
Proof. intros [Hs Hl]. split; simpl; [done | by rewrite length_imap]. Qed.

(** A frame of a well-formed tensor is a well-formed tensor of the
    remaining axes. *)
Lemma has_shape_index0 T sh x t :
  has_shape (T :: sh) x → t < T → has_shape sh (index0 x t).
Proof.
  intros [Hs Hl] Ht. unfold index0. rewrite Hs. split; simpl; [done |].
  rewrite length_take, length_drop, Hl. simpl. nia.
Qed.

Lemma has_shape_ema_spec beta T sh x t :
  has_shape (T :: sh) x → t < T → has_shape sh (ema_spec beta x t).
Proof.
  intros Hx. induction t as [|t IH]; intros Ht; simpl.
  - by eapply has_shape_index0.
  - apply has_shape_tzip; apply has_shape_tmap.
    + apply IH. lia.
    + by eapply has_shape_index0.
Qed.

(** Reading frame [t] of a stack gives back the [t]-th stacked tensor. *)
Lemma index0_stack0 sh l t s :
  Forall (has_shape sh) l → l !! t = Some s → index0 (stack0 l) t = s.
Proof.
  intros Hall Hlk.
  assert (Hsh : tail (shape (stack0 l)) = sh).
  { destruct l as [|s0 l']; [done |]. simpl. by inversion Hall as [|?? [? _]]. }
  unfold index0. rewrite Hsh. clear Hsh.
  assert (Hs : has_shape sh s).
  { eapply Forall_forall; [exact Hall |]. by eapply list_elem_of_lookup_2. }
  apply tensor_eq; simpl; [by destruct Hs |].
  clear Hs. revert t Hlk.
  induction Hall as [|s0 l' [_ H0] _ IH]; intros t Hlk; [done |].
  destruct t as [|t]; simpl in *.
  - injection Hlk as ->. by apply take_app_length'.
  - rewrite drop_app_add' by done. by apply IH.
Qed.

Lemma has_shape_stack0 sh l :
  Forall (has_shape sh) l → l ≠ [] → has_shape (length l :: sh) (stack0 l).
Proof.
  intros Hall Hne. split.
  - destruct l as [|s0 l']; [done |]. simpl.
    apply Forall_cons in Hall as [[-> _] _]. done.
  - simpl. clear Hne. induction Hall as [|s0 l' [_ H0] _ IH]; [done |].
    csimpl in *. rewrite length_app, IH, H0. done.
Qed.
End shapes.

(** ** The loop of the smoother *)

Section smoother.
Variables (beta : R) (x : tensor).

(** After [n] turns the loop holds [s_n] and has collected [s_0 .. s_n]. *)
Lemma ema_loop n :
  foldl (ema_step x beta (1 - beta)) (index0 x 0, [index0 x 0]) (seq 1 n)
  = (ema_spec beta x n, ema_spec beta x <$> seq 0 (S n)).
Proof.
  induction n as [|n IH]; [done |].
  rewrite seq_S, foldl_snoc, IH. unfold ema_step. simpl fst. simpl snd.
  rewrite (seq_S (S n)), fmap_app. reflexivity.
Qed.
End smoother.

Section smoother_stage.
Variable p : preset.
Implicit Types (x : tensor) (sh : list nat).

Lemma dim0_cons T sh x : shape x = T :: sh → dim x 0 = T.
Proof. unfold dim. by intros ->. Qed.

(** When the guard holds, the stage stacks [s_0 .. s_{T-1}]. *)
Lemma ema_smooth_active x :
  1 < dim x 0 → (PRESET_EMA_BETA p > 0)%R →
  ema_smooth p x = stack0 (ema_spec (PRESET_EMA_BETA p) x <$> seq 0 (dim x 0)).
Proof.
  intros HT Hb. unfold ema_smooth.
  rewrite (bool_decide_eq_true_2 _ HT), (bool_decide_eq_true_2 _ Hb).
  cbn [andb]. rewrite ema_loop. cbn [snd].
  by replace (S (dim x 0 - 1)) with (dim x 0) by lia.
Qed.

(** When the guard fails, the stage hands back its input. *)
Lemma ema_smooth_idle x :
  dim x 0 ≤ 1 ∨ (PRESET_EMA_BETA p <= 0)%R → ema_smooth p x = x.
Proof.
  intros H. unfold ema_smooth.
  destruct H as [H|H].
  - rewrite (bool_decide_eq_false_2 (1 < _)) by lia. done.
  - rewrite (bool_decide_eq_false_2 (_ > _)%R) by lra. by rewrite andb_false_r.
Qed.

Lemma ema_frames_shape T sh x :
  has_shape (T :: sh) x →
  Forall (has_shape sh) (ema_spec (PRESET_EMA_BETA p) x <$> seq 0 T).
Proof.
  intros Hx. apply Forall_fmap, Forall_forall. intros t Ht.
  apply elem_of_seq in Ht. eapply has_shape_ema_spec; [done | lia].
Qed.

(** The stage keeps the shape and the number of elements. *)
Lemma has_shape_ema_smooth T sh x :
  has_shape (T :: sh) x → has_shape (T :: sh) (ema_smooth p x).
Proof.
  intros Hx. pose proof (dim0_cons T sh x (proj1 Hx)) as HT.
  destruct (decide (1 < T)) as [H1|H1];
    [destruct (decide (PRESET_EMA_BETA p > 0)%R) as [Hb|Hb] |].
  - rewrite ema_smooth_active by (done || lia). rewrite HT.
    pose proof (has_shape_stack0 sh _ (ema_frames_shape T sh x Hx)) as Hst.
    rewrite length_fmap, length_seq in Hst. apply Hst.
    destruct T; [lia | done].
  - rewrite ema_smooth_idle; [done | right; lra].
  - rewrite ema_smooth_idle; [done | left; lia].
Qed.

(** Frame [t] of the smoothed sequence is [s_t]. *)
Lemma ema_smooth_frame T sh x t :
  has_shape (T :: sh) x → 1 < T → (PRESET_EMA_BETA p > 0)%R → t < T →
  index0 (ema_smooth p x) t = ema_spec (PRESET_EMA_BETA p) x t.
Proof.
  intros Hx H1 Hb Ht. pose proof (dim0_cons T sh x (proj1 Hx)) as HT.
  rewrite ema_smooth_active by (done || lia). rewrite HT.
  eapply index0_stack0; [by apply ema_frames_shape |].
  rewrite list_lookup_fmap, lookup_seq_lt by done. done.
Qed.
End smoother_stage.

(** C1. On an input of shape [T, B, C] with T > 1 and ema_beta > 0 the
    smoother keeps the shape and its frame [t] is [s_t], where [s_0 = x_0]
    and [s_t = beta * s_{t-1} + (1 - beta) * x_t]; when T = 1 or
    ema_beta <= 0 the smoother returns its input; for every T >= 1 frame 0
    of the output is frame 0 of the input. *)
Theorem temporal_smoother_recurrence (p : preset) (T B C : nat) (x : tensor) :
  has_shape [T; B; C] x →
  (1 < T → (PRESET_EMA_BETA p > 0)%R →
     has_shape [T; B; C] (ema_smooth p x) ∧
     ∀ t, t < T → index0 (ema_smooth p x) t = ema_spec (PRESET_EMA_BETA p) x t) ∧
  (T = 1 ∨ (PRESET_EMA_BETA p <= 0)%R → ema_smooth p x = x) ∧
  (1 ≤ T → index0 (ema_smooth p x) 0 = index0 x 0).
Proof.
  intros Hx. pose proof (dim0_cons _ _ _ (proj1 Hx)) as HT.
  split; [| split].
  - intros H1 Hb. split; [by apply has_shape_ema_smooth |].
    intros t Ht. by eapply ema_smooth_frame.
  - intros [->|Hb]; apply ema_smooth_idle; [left; lia | by right].
  - intros H1.
    destruct (decide (1 < T)) as [H2|H2];
      [destruct (decide (PRESET_EMA_BETA p > 0)%R) as [Hb|Hb] |].
    + by rewrite (ema_smooth_frame p T [B; C] x 0) by (done || lia).
    + rewrite ema_smooth_idle; [done | right; lra].
    + rewrite ema_smooth_idle; [done | left; lia].
Qed.

Lemma temporal_smoother_recurrence_witness :
  index0 (ema_smooth HuMoLipsyncSuppress x_example) 1
    = ema_spec (9/10) x_example 1
  ∧ ema_smooth HuMoLipsyncSuppress x_single = x_single
  ∧ index0 (ema_smooth HuMoLipsyncSuppress x_example) 0 = index0 x_example 0.
Proof.
  assert (Hex : has_shape [2; 5; 4] x_example) by (split; reflexivity).
  assert (Hsi : has_shape [1; 5; 2] x_single) by (split; reflexivity).
  destruct (temporal_smoother_recurrence HuMoLipsyncSuppress 2 5 4 x_example Hex)
    as (Hrec & _ & Hfirst).
  destruct (temporal_smoother_recurrence HuMoLipsyncSuppress 1 5 2 x_single Hsi)
    as (_ & Hid & _).
  split; [| split].
  - apply Hrec; [lia | simpl; lra | lia].
  - apply Hid. by left.
  - apply Hfirst. lia.
Defined.

(** ** Running [apply] on a heap *)

Section apply_runs.
Variables (p : preset) (h : heap) (image_embeds : loc).

Lemma copy_ref_fresh : h !! copy_ref h = None.
Proof. unfold copy_ref. apply not_elem_of_dom. apply is_fresh. Qed.

Lemma out_ref_fresh d : copy_heap h d !! out_ref h d = None.
Proof. unfold out_ref. apply not_elem_of_dom. apply is_fresh. Qed.

Lemma copy_heap_old d r o : h !! r = Some o → copy_heap h d !! r = Some o.
Proof.
  intros Hr. unfold copy_heap. rewrite lookup_insert_ne; [done |].
  intros <-. by rewrite copy_ref_fresh in Hr.
Qed.

Lemma copy_heap_new d : copy_heap h d !! copy_ref h = Some (ODict d).
Proof. apply lookup_insert_eq. Qed.

(** [enabled = False]: nothing is read and nothing is written. *)
Lemma apply_disabled : apply p image_embeds false h = (inr image_embeds, h).
Proof. reflexivity. Qed.

(** The key is absent: the ValueError of line 62. *)
Lemma apply_missing d :
  h !! image_embeds = Some (ODict d) → d !! key = None →
  apply p image_embeds true h = (inl (ValueError missing_key_msg), copy_heap h d).
Proof.
  intros Hd Hk. unfold apply, mbind, M_bind, dict_items, alloc, dict_contains.
  cbn [negb]. rewrite Hd. fold (copy_ref h). fold (copy_heap h d).
  rewrite copy_heap_new, Hk.
  rewrite bool_decide_eq_false_2 by (intros [? ?]; done).
  reflexivity.
Qed.

(** The value at the key fails the shape test: the ValueError of line 66. *)
Lemma apply_bad_shape d r x :
  h !! image_embeds = Some (ODict d) → d !! key = Some r →
  h !! r = Some (OTensor x) → ndim x ≠ 3 ∨ dim x 1 ≠ 5 →
  apply p image_embeds true h = (inl (ValueError (shape_msg x)), copy_heap h d).
Proof.
  intros Hd Hk Hr Hbad.
  unfold apply, mbind, M_bind, dict_items, alloc, dict_contains,
    dict_getitem, as_tensor.
  cbn [negb]. rewrite Hd. fold (copy_ref h). fold (copy_heap h d).
  rewrite copy_heap_new, Hk.
  rewrite bool_decide_eq_true_2 by eauto. cbn [negb].
  rewrite copy_heap_new, Hk, (copy_heap_old d r _ Hr).
  destruct Hbad as [Hn|Hb].
  - rewrite (bool_decide_eq_false_2 (ndim x = 3)) by done. reflexivity.
  - rewrite (bool_decide_eq_false_2 (dim x 1 = 5)) by done.
    rewrite orb_true_r. reflexivity.
Qed.

(** The value at the key passes the shape test: the edited tensor is a new
    object, and the copy, not the caller's dict, is updated. *)
Lemma apply_enabled d r x :
  h !! image_embeds = Some (ODict d) → d !! key = Some r →
  h !! r = Some (OTensor x) → ndim x = 3 → dim x 1 = 5 →
  length (PRESET_GAINS p) = 5 →
  apply p image_embeds true h =
    (inr (copy_ref h),
     <[copy_ref h := ODict (<[key := out_ref h d]> d)]>
       (<[out_ref h d := OTensor (pipeline p x)]> (copy_heap h d))).
Proof.
  intros Hd Hk Hr Hn Hb Hg.
  unfold apply, mbind, M_bind, dict_items, alloc, dict_contains,
    dict_getitem, as_tensor, dict_setitem.
  cbn [negb]. rewrite Hd. fold (copy_ref h). fold (copy_heap h d).
  rewrite copy_heap_new, Hk.
  rewrite bool_decide_eq_true_2 by eauto. cbn [negb].
  rewrite copy_heap_new, Hk, (copy_heap_old d r _ Hr).
  rewrite !bool_decide_eq_true_2 by done. cbn [negb orb].
  fold (out_ref h d).
  rewrite lookup_insert_ne, copy_heap_new; [done |].
  intros Heq. pose proof (out_ref_fresh d) as Hf.
  rewrite Heq, copy_heap_new in Hf. done.
Qed.
End apply_runs.

(** C2. With [enabled = False], [apply] returns the very reference it was
    given and leaves the heap as it was, whatever the heap holds at that
    reference: no key is looked up, no shape is tested, nothing is raised. *)
Theorem disabled_is_passthrough (p : preset) (h : heap) (image_embeds : loc) :
  apply p image_embeds false h = (inr image_embeds, h).
Proof. apply apply_disabled. Qed.

(** C3. With [enabled = True] and a tensor under the key whose rank is not 3,
    or whose rank is 3 and whose axis 1 is not 5, [apply] raises the
    ValueError whose message ends with the shape of that tensor; the preset
    and the elements of the tensor play no part, and the heap gains the
    discarded copy of the dict and no tensor. *)
Theorem bad_shape_raises (p : preset) (h : heap) (image_embeds r : loc)
    (d : gmap string loc) (x : tensor) :
  h !! image_embeds = Some (ODict d) → d !! key = Some r →
  h !! r = Some (OTensor x) →
  ndim x ≠ 3 ∨ (ndim x = 3 ∧ dim x 1 ≠ 5) →
  apply p image_embeds true h =
    (inl (ValueError ("humo_audio_emb expected shape [T,5,C], got "
                      +:+ str_tuple (shape x))),
     <[fresh (dom h) := ODict d]> h).
Proof.
  intros Hd Hk Hr Hbad.
  rewrite (apply_bad_shape p h image_embeds d r x) by tauto. reflexivity.
Qed.

Lemma bad_shape_raises_witness :
  apply HuMoLipsyncSuppress 1%positive true
        (container_with (Tensor [2; 4; 3] (replicate 24 1%R)))
  = (inl (ValueError "humo_audio_emb expected shape [T,5,C], got (2, 4, 3)"),
     <[fresh (dom (container_with (Tensor [2; 4; 3] (replicate 24 1%R))))
         := ODict entries_with]>
       (container_with (Tensor [2; 4; 3] (replicate 24 1%R)))).
Proof.
  apply (bad_shape_raises HuMoLipsyncSuppress
           (container_with (Tensor [2; 4; 3] (replicate 24 1%R)))
           1%positive 2%positive
           entries_with
           (Tensor [2; 4; 3] (replicate 24 1%R))).
  - reflexivity.
  - reflexivity.
  - reflexivity.
  - right. split; [reflexivity |]. unfold dim. simpl. lia.
Defined.

(** C4. With [enabled = True] and no entry under the key, [apply] raises
    the ValueError for the missing key: no container is returned and the
    heap gains only the discarded copy of the dict. *)
Theorem missing_key_raises (p : preset) (h : heap) (image_embeds : loc)
    (d : gmap string loc) :
  h !! image_embeds = Some (ODict d) → d !! key = None →
  apply p image_embeds true h =
    (inl (ValueError "Missing key 'humo_audio_emb' in WANVIDIMAGE_EMBEDS"),
     <[fresh (dom h) := ODict d]> h).
Proof. intros Hd Hk. by rewrite (apply_missing p h image_embeds d). Qed.

Lemma missing_key_raises_witness :
  apply HuMoLipsyncSuppress 1%positive true container_without
  = (inl (ValueError "Missing key 'humo_audio_emb' in WANVIDIMAGE_EMBEDS"),
     <[fresh (dom container_without) := ODict entries_without]>
       container_without).
Proof.
  apply (missing_key_raises HuMoLipsyncSuppress container_without 1%positive
           entries_without).
  - reflexivity.
  - reflexivity.
Defined.

(** The heap after a successful run: what was there is still there. *)
Lemma apply_enabled_frame (h : heap) (d d' : gmap string loc) (o : obj)
    (r : loc) (ob : obj) :
  h !! r = Some ob →
  <[copy_ref h := ODict d']> (<[out_ref h d := o]> (copy_heap h d)) !! r = Some ob.
Proof.
  intros Hr.
  assert (r ≠ copy_ref h) as Hne1.
  { intros ->. by rewrite copy_ref_fresh in Hr. }
  assert (r ≠ out_ref h d) as Hne2.
  { intros ->. pose proof (out_ref_fresh h d) as Hf.
    by rewrite (copy_heap_old h d _ _ Hr) in Hf. }
  rewrite lookup_insert_ne, lookup_insert_ne by done.
  by apply copy_heap_old.
Qed.

Lemma out_ref_new (h : heap) (d : gmap string loc) :
  h !! out_ref h d = None ∧ copy_ref h ≠ out_ref h d.
Proof.
  pose proof (out_ref_fresh h d) as Hf. split.
  - destruct (h !! out_ref h d) as [ob|] eqn:Ho; [| done].
    by rewrite (copy_heap_old h d _ _ Ho) in Hf.
  - intros Heq. by rewrite <- Heq, copy_heap_new in Hf.
Qed.

(** C5. With [enabled = True] and a rank-3 tensor with 5 bands under the
    key, [apply] returns a new dict whose entry under the key is a new
    tensor, the result of the pipeline; every other key of the new dict maps
    to the reference it maps to in the caller's dict; the caller's dict, the
    caller's tensor and every other object of the heap are as they were. *)
Theorem enabled_copies_on_write (p : preset) (h : heap) (image_embeds r : loc)
    (d : gmap string loc) (x : tensor) :
  h !! image_embeds = Some (ODict d) → d !! key = Some r →
  h !! r = Some (OTensor x) → ndim x = 3 → dim x 1 = 5 →
  length (PRESET_GAINS p) = 5 →
  ∃ (embeds out : loc) (h' : heap),
    apply p image_embeds true h = (inr embeds, h')
    ∧ h !! embeds = None ∧ h !! out = None ∧ embeds ≠ out
    ∧ h' !! embeds = Some (ODict (<[key := out]> d))
    ∧ h' !! out = Some (OTensor (pipeline p x))
    ∧ (∀ k, k ≠ key → (<[key := out]> d) !! k = d !! k)
    ∧ h' !! image_embeds = Some (ODict d)
    ∧ h' !! r = Some (OTensor x)
    ∧ (∀ r' ob, h !! r' = Some ob → h' !! r' = Some ob).
Proof.
  intros Hd Hk Hr Hn Hb Hg.
  destruct (out_ref_new h d) as [Ho Hne].
  exists (copy_ref h), (out_ref h d). eexists.
  split; [by eapply apply_enabled |].
  split; [apply copy_ref_fresh |]. split; [done |]. split; [done |].
  split; [apply lookup_insert_eq |].
  split; [by rewrite lookup_insert_ne, lookup_insert_eq |].
  split; [intros k Hkey; by rewrite lookup_insert_ne |].
  split; [by apply apply_enabled_frame |].
  split; [by apply apply_enabled_frame |].
  intros r' ob. apply apply_enabled_frame.
Qed.

Lemma enabled_copies_on_write_witness :
  ∃ (embeds out : loc) (h' : heap),
    apply HuMoLipsyncSuppress 1%positive true (container_with x_example)
      = (inr embeds, h')
    ∧ container_with x_example !! embeds = None
    ∧ container_with x_example !! out = None ∧ embeds ≠ out
    ∧ h' !! embeds
      = Some (ODict (<[key := out]>
                       entries_with))
    ∧ h' !! out = Some (OTensor (pipeline HuMoLipsyncSuppress x_example))
    ∧ (∀ k, k ≠ key →
         (<[key := out]> entries_with) !! k
         = entries_with !! k)
    ∧ h' !! 1%positive
      = Some (ODict entries_with)
    ∧ h' !! 2%positive = Some (OTensor x_example)
    ∧ (∀ r' ob, container_with x_example !! r' = Some ob → h' !! r' = Some ob).
Proof.
  apply (enabled_copies_on_write HuMoLipsyncSuppress (container_with x_example)
           1%positive 2%positive
           entries_with x_example);
    reflexivity.
Defined.

(** The pipeline on a sequence without frames. *)
Lemma pipeline_no_frames (p : preset) (C : nat) :
  pipeline p (Tensor [0; 5; C] []) = Tensor [0; 5; C] [].
Proof.
  unfold pipeline, pre_clamp, clamp_stage, global_gain, blend, edit.
  rewrite ema_smooth_idle by (left; unfold dim; simpl; lia).
  destruct (PRESET_PRESERVE_RMS p); repeat case_bool_decide; reflexivity.
Qed.

(** C10. With [enabled = True] and a tensor of shape [0, 5, C] under the
    key, [apply] raises nothing and returns a dict whose entry under the key
    is an empty tensor of shape [0, 5, C]: the shape test looks at the rank
    and at axis 1 only. *)
Theorem zero_frames_accepted (p : preset) (h : heap) (image_embeds r : loc)
    (d : gmap string loc) (C : nat) :
  h !! image_embeds = Some (ODict d) → d !! key = Some r →
  h !! r = Some (OTensor (Tensor [0; 5; C] [])) →
  length (PRESET_GAINS p) = 5 →
  ∃ (embeds out : loc) (h' : heap),
    apply p image_embeds true h = (inr embeds, h')
    ∧ h' !! embeds = Some (ODict (<[key := out]> d))
    ∧ h' !! out = Some (OTensor (Tensor [0; 5; C] [])).
Proof.
  intros Hd Hk Hr Hg.
  destruct (out_ref_new h d) as [Ho Hne].
  exists (copy_ref h), (out_ref h d). eexists.
  split; [by eapply apply_enabled |].
  split; [apply lookup_insert_eq |].
  rewrite lookup_insert_ne, lookup_insert_eq by done.
  by rewrite pipeline_no_frames.
Qed.

Lemma zero_frames_accepted_witness :
  ∃ (embeds out : loc) (h' : heap),
    apply HuMoLipsyncSuppress 1%positive true
          (container_with (Tensor [0; 5; 1280] [])) = (inr embeds, h')
    ∧ h' !! embeds
      = Some (ODict (<[key := out]>
                       entries_with))
    ∧ h' !! out = Some (OTensor (Tensor [0; 5; 1280] [])).
Proof.
  apply (zero_frames_accepted HuMoLipsyncSuppress
           (container_with (Tensor [0; 5; 1280] [])) 1%positive 2%positive
           entries_with 1280);
    reflexivity.
Defined.

(** ** The blend *)

Section blend_stage.
Implicit Types (x : tensor) (a b : list R).

Lemma zip_full a : ∀ b, length a = length b →
  zip_with Rplus (Rmult (1 - 1) <$> a) (Rmult 1 <$> b) = b.
Proof.
  induction a as [|u a IH]; intros [|v b] Hl; simpl in *; try done.
  f_equal; [lra | apply IH; lia].
Qed.


(** The edited branch has the shape and the size of the input. *)
Lemma has_shape_edit p T B C x :
  has_shape [T; B; C] x → has_shape [T; B; C] (edit p x).
Proof.
  intros Hx. unfold edit.
  pose proof (has_shape_ema_smooth p T [B; C] x Hx) as Hs.
  destruct (PRESET_PRESERVE_RMS p).
  - by apply has_shape_mul_rows, has_shape_mul_bands.
  - by apply has_shape_mul_bands.
Qed.

Lemma blend_full p sh x_orig x_edit :
  PRESET_ALPHA_MIX p = 1%R →
  has_shape sh x_orig → has_shape sh x_edit →
  blend p x_orig x_edit = x_edit.
Proof.
  intros Ha [Hs Hl] [Hs' Hl']. unfold blend. rewrite Ha.
  apply tensor_eq; simpl; [congruence |].
  apply zip_full. congruence.
Qed.

End blend_stage.

(** C8. With [alpha_mix = 1] the blend of the input with the edited tensor
    (gains applied, RMS preserved when the preset says so) is the edited
    tensor itself, for every well-formed input of shape [T, B, C]. *)
Theorem full_blend_is_edit (p : preset) (T B C : nat) (x : tensor) :
  PRESET_ALPHA_MIX p = 1%R → has_shape [T; B; C] x →
  blend p x (edit p x) = edit p x.
Proof.
  intros Ha Hx. eapply blend_full; [done | done |]. by apply has_shape_edit.
Qed.

Lemma full_blend_is_edit_witness :
  blend preset_rms x_example (edit preset_rms x_example)
  = edit preset_rms x_example.
Proof.
  apply (full_blend_is_edit preset_rms 2 5 4 x_example).
  - reflexivity.
  - split; reflexivity.
Defined.




(** ** The end-to-end example *)

Lemma ema_smooth_example :
  ema_smooth HuMoLipsyncSuppress x_example
  = Tensor [2; 5; 4] (replicate 20 1%R ++ replicate 20 (11/10)%R).
Proof.
  unfold ema_smooth.
  rewrite (bool_decide_eq_true_2 (1 < _)) by (unfold dim; simpl; lia).
  rewrite (bool_decide_eq_true_2 (_ > _)%R) by (simpl; lra).
  apply tensor_eq; [reflexivity |]. cbn. list_of_reals.
Qed.

Lemma pipeline_example : pipeline HuMoLipsyncSuppress x_example = y_example.
Proof.
  unfold pipeline, pre_clamp, clamp_stage, global_gain, blend, edit.
  rewrite ema_smooth_example.
  cbn [HuMoLipsyncSuppress PRESET_CLAMP_STD PRESET_GLOBAL_GAIN PRESET_ALPHA_MIX
       PRESET_PRESERVE_RMS PRESET_GAINS].
  rewrite (bool_decide_eq_false_2 (0 > 0)%R) by lra.
  rewrite (bool_decide_eq_false_2 (1%R ≠ 1%R)) by (intros Hne; by apply Hne).
  apply tensor_eq; [reflexivity |]. cbn. list_of_reals.
Qed.

(** C6. On the input of shape [2, 5, 4] with frame 0 all ones and frame 1
    all twos, under the preset of the class: frame 1 of the smoothed
    sequence is 1.10 everywhere; [apply] with [enabled = True] stores a
    tensor whose frame 1, band 0 is 4.40 everywhere and whose frame 0 is,
    band by band, frame 0 of the input times the gain of the band (4 on
    band 0, 0.01 on band 4). *)
Theorem end_to_end_example :
  index0 (ema_smooth HuMoLipsyncSuppress x_example) 1
    = Tensor [5; 4] (replicate 20 (11/10)%R)
  ∧ ∃ (embeds out : loc) (h' : heap) (y : tensor),
      apply HuMoLipsyncSuppress 1%positive true (container_with x_example)
        = (inr embeds, h')
      ∧ h' !! embeds = Some (ODict (<[key := out]> entries_with))
      ∧ h' !! out = Some (OTensor y)
      ∧ index0 (index0 y 1) 0 = Tensor [4] (replicate 4 (22/5)%R)
      ∧ (∀ b, b < 5 →
           index0 (index0 y 0) b
           = tmap (λ v, v * nth b (PRESET_GAINS HuMoLipsyncSuppress) 0)%R
                  (index0 (index0 x_example 0) b))
      ∧ index0 (index0 y 0) 0 = Tensor [4] (replicate 4 4%R)
      ∧ index0 (index0 y 0) 4 = Tensor [4] (replicate 4 (1/100)%R).
Proof.
  split.
  - rewrite ema_smooth_example. reflexivity.
  - destruct (out_ref_new (container_with x_example) entries_with) as [Ho Hne].
    exists (copy_ref (container_with x_example)),
           (out_ref (container_with x_example) entries_with).
    eexists. exists y_example.
    split; [| split; [| split; [| split; [| split; [| split]]]]].
    + by apply (apply_enabled _ _ _ entries_with 2%positive x_example).
    + apply lookup_insert_eq.
    + by rewrite lookup_insert_ne, lookup_insert_eq, pipeline_example.
    + reflexivity.
    + intros b Hb.
      destruct b as [|[|[|[|[|b]]]]]; [| | | | | lia];
        (apply tensor_eq; [reflexivity |]; cbn; list_of_reals).
    + reflexivity.
    + reflexivity.
Qed.

(** ** The clamp *)

Section clamp_stage_facts.
Variable p : preset.
Hypothesis Hc : (PRESET_CLAMP_STD p > 0)%R.

Lemma clamp_stage_on x_mixed :
  clamp_stage p x_mixed
  = tmap (clamp (clamp_lo p x_mixed) (clamp_hi p x_mixed)) x_mixed.
Proof. unfold clamp_stage. by rewrite bool_decide_eq_true_2. Qed.

Lemma clamp_window x_mixed : (clamp_lo p x_mixed < clamp_hi p x_mixed)%R.
Proof.
  unfold clamp_lo, clamp_hi.
  pose proof (Rmax_r (std (data x_mixed)) (1/1000000)) as Hm.
  assert (0 < PRESET_CLAMP_STD p * Rmax (std (data x_mixed)) (1/1000000))%R.
  { apply Rmult_lt_0_compat; lra. }
  lra.
Qed.

End clamp_stage_facts.

Lemma pre_clamp_example :
  pre_clamp preset_clamp x_clamp = Tensor [1; 5; 1] [4; -4; 4; -4; 0]%R.
Proof.
  unfold pre_clamp, global_gain, blend, edit.
  rewrite ema_smooth_idle by (left; unfold dim; simpl; lia).
  cbn [preset_clamp PRESET_GLOBAL_GAIN PRESET_ALPHA_MIX PRESET_PRESERVE_RMS
       PRESET_GAINS].
  rewrite (bool_decide_eq_false_2 (1%R ≠ 1%R)) by (intros Hne; by apply Hne).
  apply tensor_eq; [reflexivity |]. cbn. list_of_reals.
Qed.

Lemma mean_example : mean [4; -4; 4; -4; 0]%R = 0%R.
Proof. unfold mean. simpl. lra. Qed.

Lemma std_example : std [4; -4; 4; -4; 0]%R = 4%R.
Proof.
  unfold std. rewrite mean_example. simpl.
  replace (_ / _)%R with (4 * 4)%R by lra.
  apply sqrt_square. lra.
Qed.






(** ** Shapes through the whole pipeline *)

Section pipeline_shape.
Variable p : preset.
Implicit Types (x : tensor) (sh : list nat).

(** The smoother keeps the shape, whatever the elements are. *)
Lemma shape_ema_smooth T sh x :
  shape x = T :: sh → shape (ema_smooth p x) = T :: sh.
Proof.
  intros Hs. pose proof (dim0_cons T sh x Hs) as HT.
  destruct (decide (1 < T)) as [H1|H1];
    [destruct (decide (PRESET_EMA_BETA p > 0)%R) as [Hb|Hb] |].
  - rewrite ema_smooth_active by (done || lia). rewrite HT.
    destruct T as [|T]; [lia |].
    rewrite <- cons_seq, fmap_cons. unfold stack0.
    cbn [shape length]. rewrite length_fmap, length_seq.
    simpl. unfold index0. simpl. by rewrite Hs.
  - rewrite ema_smooth_idle; [done | right; lra].
  - rewrite ema_smooth_idle; [done | left; lia].
Qed.

Lemma shape_edit T sh x : shape x = T :: sh → shape (edit p x) = T :: sh.
Proof.
  intros Hs. unfold edit.
  destruct (PRESET_PRESERVE_RMS p); simpl; by apply shape_ema_smooth.
Qed.

Lemma shape_pipeline T sh x : shape x = T :: sh → shape (pipeline p x) = T :: sh.
Proof.
  intros Hs. unfold pipeline, pre_clamp, clamp_stage, global_gain, blend.
  repeat case_bool_decide; simpl; done.
Qed.

Lemma has_shape_pre_clamp T B C x :
  has_shape [T; B; C] x → has_shape [T; B; C] (pre_clamp p x).
Proof.
  intros Hx. unfold pre_clamp, global_gain, blend.
  assert (has_shape [T; B; C]
            (tzip Rplus (tmap (Rmult (1 - PRESET_ALPHA_MIX p)) x)
                        (tmap (Rmult (PRESET_ALPHA_MIX p)) (edit p x)))).
  { apply has_shape_tzip; apply has_shape_tmap; [done |].
    by apply has_shape_edit. }
  case_bool_decide; [by apply has_shape_tmap | done].
Qed.
End pipeline_shape.

(** X1. Whatever the preset, the pipeline maps a well-formed tensor of
    shape [T, B, C] to a well-formed tensor of the same shape. *)
Theorem pipeline_keeps_shape (p : preset) (T B C : nat) (x : tensor) :
  has_shape [T; B; C] x → has_shape [T; B; C] (pipeline p x).
Proof.
  intros Hx. unfold pipeline, clamp_stage.
  pose proof (has_shape_pre_clamp p T B C x Hx) as Hpre.
  case_bool_decide; [by apply has_shape_tmap | done].
Qed.

Lemma pipeline_keeps_shape_witness :
  has_shape [1; 5; 1] (pipeline preset_clamp x_clamp).
Proof.
  apply (pipeline_keeps_shape preset_clamp 1 5 1 x_clamp).
  split; reflexivity.
Defined.

(** ** What [apply] does to the heap, in every outcome *)

Section apply_outcomes.
Variables (p : preset) (h : heap) (image_embeds : loc).

(** The outcomes of a call with [enabled = True], by the first test that
    fails. *)
Lemma apply_not_dict :
  (∀ d, h !! image_embeds ≠ Some (ODict d)) →
  apply p image_embeds true h = (inl (TypeError "object is not a mapping"), h).
Proof.
  intros Hnd. unfold apply, mbind, M_bind, dict_items. cbn [negb].
  destruct (h !! image_embeds) as [[d| |]|] eqn:Hl; try reflexivity.
  by destruct (Hnd d).
Qed.

Lemma apply_not_tensor d r :
  h !! image_embeds = Some (ODict d) → d !! key = Some r →
  (∀ x, h !! r ≠ Some (OTensor x)) →
  apply p image_embeds true h
  = (inl (AttributeError "object has no attribute 'ndim'"), copy_heap h d).
Proof.
  intros Hd Hk Hnt.
  unfold apply, mbind, M_bind, dict_items, alloc, dict_contains,
    dict_getitem, as_tensor.
  cbn [negb]. rewrite Hd. fold (copy_ref h). fold (copy_heap h d).
  rewrite copy_heap_new, Hk.
  rewrite bool_decide_eq_true_2 by eauto. cbn [negb].
  rewrite copy_heap_new, Hk.
  destruct (copy_heap h d !! r) as [[| x |]|] eqn:Hr; try reflexivity.
  exfalso. unfold copy_heap in Hr.
  destruct (decide (copy_ref h = r)) as [<-|Hne].
  - by rewrite lookup_insert_eq in Hr.
  - rewrite lookup_insert_ne in Hr by done. by destruct (Hnt x).
Qed.

Lemma apply_bad_gains d r x :
  h !! image_embeds = Some (ODict d) → d !! key = Some r →
  h !! r = Some (OTensor x) → ndim x = 3 → dim x 1 = 5 →
  length (PRESET_GAINS p) ≠ 5 →
  apply p image_embeds true h
  = (inl (RuntimeError "shape '[1, 5, 1]' is invalid for input"), copy_heap h d).
Proof.
  intros Hd Hk Hr Hn Hb Hg.
  unfold apply, mbind, M_bind, dict_items, alloc, dict_contains,
    dict_getitem, as_tensor.
  cbn [negb]. rewrite Hd. fold (copy_ref h). fold (copy_heap h d).
  rewrite copy_heap_new, Hk.
  rewrite bool_decide_eq_true_2 by eauto. cbn [negb].
  rewrite copy_heap_new, Hk, (copy_heap_old h d r _ Hr).
  rewrite (bool_decide_eq_true_2 (ndim x = 3)) by done.
  rewrite (bool_decide_eq_true_2 (dim x 1 = 5)) by done.
  rewrite (bool_decide_eq_false_2 (length _ = 5)) by done.
  reflexivity.
Qed.

(** Every call ends in one of six ways. *)
Lemma apply_cases (enabled : bool) :
  apply p image_embeds enabled h = (inr image_embeds, h) ∧ enabled = false
  ∨ (enabled = true ∧ ∃ e, apply p image_embeds enabled h = (inl e, h))
  ∨ (enabled = true ∧ ∃ e d, h !! image_embeds = Some (ODict d)
       ∧ apply p image_embeds enabled h = (inl e, copy_heap h d))
  ∨ (enabled = true ∧ ∃ d r x,
       h !! image_embeds = Some (ODict d) ∧ d !! key = Some r
       ∧ h !! r = Some (OTensor x) ∧ ndim x = 3 ∧ dim x 1 = 5
       ∧ length (PRESET_GAINS p) = 5
       ∧ apply p image_embeds enabled h =
           (inr (copy_ref h),
            <[copy_ref h := ODict (<[key := out_ref h d]> d)]>
              (<[out_ref h d := OTensor (pipeline p x)]> (copy_heap h d)))).
Proof.
  destruct enabled; [| left; by rewrite apply_disabled].
  right.
  destruct (h !! image_embeds) as [[d| y |n]|] eqn:Hl;
    [| left; split; [done |]; eexists; apply apply_not_dict; congruence ..].
  right.
  destruct (d !! key) as [r|] eqn:Hk;
    [| left; split; [done |]; do 2 eexists; split; [done |];
       by apply apply_missing].
  destruct (h !! r) as [[d'| x |n]|] eqn:Hr;
    [left; split; [done |]; do 2 eexists; split; [done |];
     eapply apply_not_tensor; [done | done | congruence] | |
     left; split; [done |]; do 2 eexists; split; [done |];
     eapply apply_not_tensor; [done | done | congruence] ..].
  destruct (decide (ndim x = 3)) as [Hn|Hn];
    [| left; split; [done |]; do 2 eexists; split; [done |];
       eapply apply_bad_shape; eauto].
  destruct (decide (dim x 1 = 5)) as [Hb|Hb];
    [| left; split; [done |]; do 2 eexists; split; [done |];
       eapply apply_bad_shape; eauto].
  destruct (decide (length (PRESET_GAINS p) = 5)) as [Hg|Hg];
    [| left; split; [done |]; do 2 eexists; split; [done |];
       eapply apply_bad_gains; eauto].
  right. split; [done |]. exists d, r, x. repeat (split; [done |]).
  by apply (apply_enabled p h image_embeds d r x).
Qed.
End apply_outcomes.



(** X3. Given a dict, a call with [enabled = True] returns normally only if
    the dict binds the key to a tensor of rank 3 with 5 bands.  The dict
    returned then has exactly the keys of the dict given and binds the key
    to the output of the pipeline. *)
Theorem enabled_return_means_valid (p : preset) (h h' : heap)
    (image_embeds embeds : loc) (d : gmap string loc) :
  h !! image_embeds = Some (ODict d) →
  apply p image_embeds true h = (inr embeds, h') →
  ∃ (r out : loc) (x : tensor),
    d !! key = Some r
    ∧ h !! r = Some (OTensor x) ∧ ndim x = 3 ∧ dim x 1 = 5
    ∧ h' !! embeds = Some (ODict (<[key := out]> d))
    ∧ dom (<[key := out]> d) = dom d
    ∧ h' !! out = Some (OTensor (pipeline p x)).
Proof.
  intros Hdict Hret.
  destruct (apply_cases p h image_embeds true)
    as [[_ ?]|[[_ [e He]]|[[_ (e & d' & _ & He)]|[_ (d' & r & x & H)]]]];
    [done | congruence | congruence |].
  destruct H as (Hd & Hk & Hr & Hn & Hb & _ & Hrun).
  rewrite Hrun in Hret. simplify_eq.
  destruct (out_ref_new h d) as [_ Hne].
  exists r, (out_ref h d), x. repeat (split; [done |]).
  split; [apply lookup_insert_eq |].
  split.
  - rewrite dom_insert_L. apply elem_of_dom_2 in Hk.
    by apply subseteq_union_1_L, singleton_subseteq_l.
  - by rewrite lookup_insert_ne, lookup_insert_eq.
Qed.

Lemma enabled_return_means_valid_witness :
  ∃ (r out : loc) (x : tensor),
    entries_with !! key = Some r
    ∧ container_with x_example !! r = Some (OTensor x)
    ∧ ndim x = 3 ∧ dim x 1 = 5
    ∧ (apply HuMoLipsyncSuppress 1%positive true (container_with x_example)).2
        !! copy_ref (container_with x_example)
      = Some (ODict (<[key := out]> entries_with))
    ∧ dom (<[key := out]> entries_with) = dom entries_with
    ∧ (apply HuMoLipsyncSuppress 1%positive true (container_with x_example)).2
        !! out
      = Some (OTensor (pipeline HuMoLipsyncSuppress x)).
Proof.
  apply (enabled_return_means_valid HuMoLipsyncSuppress
           (container_with x_example) _ 1%positive _ entries_with).
  - reflexivity.
  - rewrite (apply_enabled HuMoLipsyncSuppress (container_with x_example)
               1%positive entries_with 2%positive x_example);
      reflexivity.
Defined.

(** X4. The container a successful call returns is itself a valid input: a
    second call with [enabled = True] on it returns normally, and the tensor
    under the key is then the pipeline applied twice to the original one. *)
Theorem apply_twice (p : preset) (h : heap) (image_embeds r : loc)
    (d : gmap string loc) (x : tensor) :
  h !! image_embeds = Some (ODict d) → d !! key = Some r →
  h !! r = Some (OTensor x) → ndim x = 3 → dim x 1 = 5 →
  length (PRESET_GAINS p) = 5 →
  ∃ (e1 e2 o2 : loc) (h1 h2 : heap),
    apply p image_embeds true h = (inr e1, h1)
    ∧ apply p e1 true h1 = (inr e2, h2)
    ∧ h2 !! e2 = Some (ODict (<[key := o2]> d))
    ∧ h2 !! o2 = Some (OTensor (pipeline p (pipeline p x))).
Proof.
  intros Hd Hk Hr Hn Hb Hg.
  destruct (out_ref_new h d) as [_ Hne].
  set (e1 := copy_ref h). set (o1 := out_ref h d).
  set (h1 := <[e1 := ODict (<[key := o1]> d)]>
               (<[o1 := OTensor (pipeline p x)]> (copy_heap h d))).
  assert (Hsh : shape (pipeline p x) = shape x).
  { unfold ndim in Hn. destruct (shape x) as [|T sh] eqn:Hs; [done |].
    by apply shape_pipeline. }
  assert (H1 : h1 !! e1 = Some (ODict (<[key := o1]> d)))
    by apply lookup_insert_eq.
  assert (H2 : h1 !! o1 = Some (OTensor (pipeline p x))).
  { unfold h1. by rewrite lookup_insert_ne, lookup_insert_eq. }
  destruct (out_ref_new h1 (<[key := o1]> d)) as [_ Hne1].
  exists e1, (copy_ref h1), (out_ref h1 (<[key := o1]> d)), h1. eexists.
  split; [by apply (apply_enabled p h image_embeds d r x) |].
  split.
  - apply (apply_enabled p h1 e1 (<[key := o1]> d) o1 (pipeline p x));
      [done | apply lookup_insert_eq | done | | | done].
    + unfold ndim. by rewrite Hsh.
    + unfold dim. by rewrite Hsh.
  - split.
    + by rewrite lookup_insert_eq, insert_insert_eq.
    + by rewrite lookup_insert_ne, lookup_insert_eq.
Qed.

Lemma apply_twice_witness :
  ∃ (e1 e2 o2 : loc) (h1 h2 : heap),
    apply HuMoLipsyncSuppress 1%positive true (container_with x_example)
      = (inr e1, h1)
    ∧ apply HuMoLipsyncSuppress e1 true h1 = (inr e2, h2)
    ∧ h2 !! e2 = Some (ODict (<[key := o2]> entries_with))
    ∧ h2 !! o2
      = Some (OTensor (pipeline HuMoLipsyncSuppress
                         (pipeline HuMoLipsyncSuppress x_example))).
Proof.
  apply (apply_twice HuMoLipsyncSuppress (container_with x_example)
           1%positive 2%positive entries_with x_example);
    reflexivity.
Defined.

(** ** Gains, band by band *)

Section bands.
Implicit Types (x : tensor) (g : list R).

(** The band of the element at row-major position [(t * 5 + b) * C + j]. *)
Lemma band_of_position C t b j i :
  b < 5 → j < C → i = (t * 5 + b) * C + j → (i / C) mod 5 = b.
Proof.
  intros Hb Hj ->.
  rewrite Nat.div_add_l by lia. rewrite (Nat.div_small j C) by lia.
  rewrite Nat.add_0_r, Nat.add_comm, Nat.Div0.mod_add.
  by apply Nat.mod_small.
Qed.

(** Band [b] of frame [t], read before or after the gains. *)
Lemma mul_bands_band T C x g t b :
  shape x = [T; 5; C] → b < 5 →
  index0 (index0 (mul_bands x g) t) b
  = tmap (λ v, v * nth b g 0)%R (index0 (index0 x t) b).
Proof.
  intros Hs Hb. unfold index0, mul_bands, tmap, dim. cbn [shape data].
  rewrite Hs. cbn [tail nth]. f_equal.
  apply list_eq. intros j.
  rewrite list_lookup_fmap, !lookup_take, !lookup_drop.
  destruct (decide (j < numel [C])) as [Hj|Hj]; [| done].
  rewrite !lookup_take, !lookup_drop.
  destruct (decide (b * numel [C] + j < numel [5; C])) as [Hbj|Hbj]; [| done].
  rewrite list_lookup_imap.
  assert (HC : numel [C] = C) by (simpl; lia).
  assert (H5 : numel [5; C] = 5 * C) by (simpl; lia).
  rewrite HC, H5 in *.
  destruct (data x !! _) as [v|]; [| done].
  cbn [fmap option_fmap option_map]. do 3 f_equal.
  apply (band_of_position C t b j); [done | done | lia].
Qed.
End bands.

(** X5. For a tensor of shape [T, 5, C], band [b] of frame [t] of the
    tensor times the gains is band [b] of frame [t] of the tensor, every
    element multiplied by the gain of band [b]: the gain of a band is shared
    by all frames and all channels of that band. *)
Theorem gains_act_per_band (T C : nat) (x : tensor) (g : list R) (t b : nat) :
  shape x = [T; 5; C] → b < 5 →
  index0 (index0 (mul_bands x g) t) b
  = tmap (λ v, v * nth b g 0)%R (index0 (index0 x t) b).
Proof. apply mul_bands_band. Qed.

Lemma gains_act_per_band_witness :
  index0 (index0 (mul_bands x_example (PRESET_GAINS HuMoLipsyncSuppress)) 1) 2
  = tmap (λ v, v * (1/2))%R (index0 (index0 x_example 1) 2).
Proof.
  apply (gains_act_per_band 2 4 x_example (PRESET_GAINS HuMoLipsyncSuppress) 1 2).
  - reflexivity.
  - lia.
Defined.

(** ** What the node computes under the class preset *)

(** Frame [t] of the smoothed sequence is [s_t] for every [T >= 1]. *)
Lemma ema_smooth_frame_any (p : preset) (T : nat) (sh : list nat)
    (x : tensor) (t : nat) :
  has_shape (T :: sh) x → (PRESET_EMA_BETA p > 0)%R → t < T →
  index0 (ema_smooth p x) t = ema_spec (PRESET_EMA_BETA p) x t.
Proof.
  intros Hx Hb Ht. destruct (decide (1 < T)) as [H1|H1].
  - by eapply ema_smooth_frame.
  - assert (t = 0) as -> by lia.
    rewrite ema_smooth_idle; [done |].
    left. rewrite (dim0_cons T sh x (proj1 Hx)). lia.
Qed.

Lemma pipeline_class_preset (T B C : nat) (x : tensor) :
  has_shape [T; B; C] x →
  pipeline HuMoLipsyncSuppress x
  = mul_bands (ema_smooth HuMoLipsyncSuppress x) (PRESET_GAINS HuMoLipsyncSuppress).
Proof.
  intros Hx. unfold pipeline, pre_clamp, clamp_stage, global_gain.
  cbn [HuMoLipsyncSuppress PRESET_CLAMP_STD PRESET_GLOBAL_GAIN].
  rewrite (bool_decide_eq_false_2 (0 > 0)%R) by lra.
  rewrite (bool_decide_eq_false_2 (1%R ≠ 1%R)) by (intros Hne; by apply Hne).
  rewrite (blend_full HuMoLipsyncSuppress [T; B; C] x
             (edit HuMoLipsyncSuppress x));
    [reflexivity | reflexivity | done | by apply has_shape_edit].
Qed.

(** X6. Under the preset of the class, on a well-formed tensor of shape
    [T, 5, C], the output is the smoothed sequence times the gains: band [b]
    of frame [t] of the output is band [b] of [s_t], every element
    multiplied by the gain of band [b], where [s_0 = x_0] and
    [s_t = 0.9 * s_{t-1} + 0.1 * x_t]. *)
Theorem class_preset_output (T C : nat) (x : tensor) (t b : nat) :
  has_shape [T; 5; C] x → t < T → b < 5 →
  pipeline HuMoLipsyncSuppress x
  = mul_bands (ema_smooth HuMoLipsyncSuppress x) [4; 4; 1/2; 1/100; 1/100]%R
  ∧ index0 (index0 (pipeline HuMoLipsyncSuppress x) t) b
    = tmap (λ v, v * nth b [4; 4; 1/2; 1/100; 1/100] 0)%R
           (index0 (ema_spec (9/10) x t) b).
Proof.
  intros Hx Ht Hb.
  pose proof (pipeline_class_preset T 5 C x Hx) as Hp.
  split; [exact Hp |].
  rewrite Hp.
  rewrite (mul_bands_band T C) by
    (done || apply (has_shape_ema_smooth HuMoLipsyncSuppress T [5; C] x Hx)).
  rewrite (ema_smooth_frame_any HuMoLipsyncSuppress T [5; C] x t);
    [reflexivity | done | simpl; lra | done].
Qed.

Lemma class_preset_output_witness :
  pipeline HuMoLipsyncSuppress x_example
  = mul_bands (ema_smooth HuMoLipsyncSuppress x_example) [4; 4; 1/2; 1/100; 1/100]%R
  ∧ index0 (index0 (pipeline HuMoLipsyncSuppress x_example) 1) 3
    = tmap (λ v, v * nth 3 [4; 4; 1/2; 1/100; 1/100] 0)%R
           (index0 (ema_spec (9/10) x_example 1) 3).
Proof.
  apply (class_preset_output 2 4 x_example 1 3).
  - split; reflexivity.
  - lia.
  - lia.
Defined.

(** ** Invariants of the smoother *)

Section smoother_invariants.
Variable p : preset.
Implicit Types (x f : tensor) (l : list R).

Lemma convex_same l (beta : R) :
  zip_with Rplus (Rmult beta <$> l) (Rmult (1 - beta) <$> l) = l.
Proof. induction l as [|v l IH]; simpl; [done |]. f_equal; [lra | done]. Qed.

Lemma convex_within (a b beta : R) l : ∀ l',
  (0 <= beta <= 1)%R →
  Forall (λ v, (a <= v <= b)%R) l → Forall (λ v, (a <= v <= b)%R) l' →
  Forall (λ v, (a <= v <= b)%R)
         (zip_with Rplus (Rmult beta <$> l) (Rmult (1 - beta) <$> l')).
Proof.
  induction l as [|u l IH]; intros [|v l'] Hbeta Hl Hl'; simpl;
    try by constructor.
  apply Forall_cons in Hl as [Hu Hl]. apply Forall_cons in Hl' as [Hv Hl'].
  constructor; [nra | by apply IH].
Qed.

Lemma ema_spec_within (a b : R) x t :
  (0 <= PRESET_EMA_BETA p <= 1)%R →
  Forall (λ v, (a <= v <= b)%R) (data x) →
  Forall (λ v, (a <= v <= b)%R) (data (ema_spec (PRESET_EMA_BETA p) x t)).
Proof.
  intros Hbeta Hx.
  assert (Hfr : ∀ t', Forall (λ v, (a <= v <= b)%R) (data (index0 x t'))).
  { intros t'. unfold index0. simpl. by apply Forall_take, Forall_drop. }
  induction t as [|t IH]; cbn [ema_spec]; [apply Hfr |].
  by apply convex_within.
Qed.

Lemma ema_spec_constant sh f T t :
  has_shape sh f → t < T →
  ema_spec (PRESET_EMA_BETA p) (stack0 (replicate T f)) t = f.
Proof.
  intros Hf Ht.
  assert (Hfr : ∀ t', t' < T → index0 (stack0 (replicate T f)) t' = f).
  { intros t' Ht'. apply (index0_stack0 sh).
    - by apply Forall_replicate.
    - by apply lookup_replicate_2. }
  induction t as [|t IH]; cbn [ema_spec]; [apply Hfr; lia |].
  rewrite IH by lia. rewrite Hfr by lia.
  apply tensor_eq; [done |]. simpl. apply convex_same.
Qed.
End smoother_invariants.

(** X7. A sequence whose frames are all the same well-formed frame is left
    as it is by the smoother, whatever the smoothing factor. *)
Theorem smoother_keeps_constant (p : preset) (sh : list nat) (f : tensor)
    (T : nat) :
  has_shape sh f → 1 ≤ T →
  ema_smooth p (stack0 (replicate T f)) = stack0 (replicate T f).
Proof.
  intros Hf HT.
  destruct (decide (1 < T)) as [H1|H1];
    [destruct (decide (PRESET_EMA_BETA p > 0)%R) as [Hb|Hb] |].
  - assert (Hd : dim (stack0 (replicate T f)) 0 = T).
    { unfold dim. simpl. by rewrite length_replicate. }
    rewrite ema_smooth_active by (done || lia). rewrite Hd. f_equal.
    apply list_eq. intros t.
    rewrite list_lookup_fmap.
    destruct (decide (t < T)) as [Ht|Ht].
    + rewrite lookup_seq_lt, lookup_replicate_2 by done. simpl.
      f_equal. by apply (ema_spec_constant p sh).
    + rewrite lookup_seq_ge by lia.
      symmetry. apply lookup_replicate_None. lia.
  - rewrite ema_smooth_idle; [done | right; lra].
  - rewrite ema_smooth_idle; [done |].
    left. unfold dim. simpl. rewrite length_replicate. lia.
Qed.

Lemma smoother_keeps_constant_witness :
  ema_smooth HuMoLipsyncSuppress
    (stack0 (replicate 3 (Tensor [5; 1] [1; 2; 3; 4; 5]%R)))
  = stack0 (replicate 3 (Tensor [5; 1] [1; 2; 3; 4; 5]%R)).
Proof.
  apply (smoother_keeps_constant HuMoLipsyncSuppress [5; 1]
           (Tensor [5; 1] [1; 2; 3; 4; 5]%R) 3).
  - split; reflexivity.
  - lia.
Defined.

(** X8. In real arithmetic (no rounding), when the smoothing factor lies
    in [0, 1], the smoother never leaves the range of its input: if every
    element of the input lies in [a, b], so does every element of the
    smoothed sequence. *)
Theorem smoother_stays_in_range (p : preset) (a b : R) (x : tensor) :
  (0 <= PRESET_EMA_BETA p <= 1)%R →
  Forall (λ v, (a <= v <= b)%R) (data x) →
  Forall (λ v, (a <= v <= b)%R) (data (ema_smooth p x)).
Proof.
  intros Hbeta Hx. unfold ema_smooth.
  destruct (bool_decide (1 < dim x 0) && bool_decide (PRESET_EMA_BETA p > 0)%R);
    [| done].
  cbn zeta. rewrite ema_loop. cbn [snd stack0 data].
  apply Forall_concat, Forall_fmap, Forall_fmap, Forall_forall.
  intros t _. by apply ema_spec_within.
Qed.

Lemma smoother_stays_in_range_witness :
  Forall (λ v, (1 <= v <= 2)%R) (data (ema_smooth HuMoLipsyncSuppress x_example)).
Proof.
  apply (smoother_stays_in_range HuMoLipsyncSuppress 1 2 x_example).
  - simpl. lra.
  - unfold x_example. simpl.
    repeat (apply Forall_cons_2; [lra |]). apply Forall_nil_2.
Defined.

(** ** RMS preservation *)

Section rms.
Implicit Types (x : tensor) (l q : list R).

Lemma sum_squares_scaled (k : R) l :
  sum ((λ v, v ^ 2)%R <$> ((λ v, v * k)%R <$> l))
  = (k ^ 2 * sum ((λ v, v ^ 2)%R <$> l))%R.
Proof.
  induction l as [|v l IH]; [simpl; ring |].
  rewrite !fmap_cons. unfold sum in *. cbn [foldr]. rewrite IH. ring.
Qed.

Lemma rms_scaled (k : R) l :
  (0 <= k)%R →
  sqrt (mean ((λ v, v ^ 2)%R <$> ((λ v, v * k)%R <$> l)))
  = (k * sqrt (mean ((λ v, v ^ 2)%R <$> l)))%R.
Proof.
  intros Hk. unfold mean. rewrite sum_squares_scaled, !length_fmap.
  replace (k ^ 2 * sum ((λ v, v ^ 2)%R <$> l) / INR (length l))%R
    with (k ^ 2 * (sum ((λ v, v ^ 2)%R <$> l) / INR (length l)))%R
    by (unfold Rdiv; ring).
  rewrite sqrt_mult_alt by (apply pow2_ge_0).
  by rewrite sqrt_pow2.
Qed.

(** Row [r] of a tensor times a tensor with one value per row. *)
Lemma row_of_mul_rows (C r : nat) q l :
  take C (drop (r * C) (imap (λ i v, v * nth (i / C) q 0)%R l))
  = (λ v, v * nth r q 0)%R <$> take C (drop (r * C) l).
Proof.
  apply list_eq. intros j.
  rewrite list_lookup_fmap, !lookup_take.
  destruct (decide (j < C)) as [Hj|Hj]; [| done].
  rewrite !lookup_drop, list_lookup_imap.
  destruct (l !! _) as [v|]; [| done].
  cbn [fmap option_fmap option_map]. do 3 f_equal.
  rewrite Nat.div_add_l by lia. rewrite Nat.div_small by lia. lia.
Qed.

Lemma nth_fmap_seq (F : nat → R) (n r : nat) :
  r < n → nth r (F <$> seq 0 n) 0%R = F r.
Proof.
  intros Hr. apply nth_lookup_Some.
  by rewrite list_lookup_fmap, lookup_seq_lt.
Qed.
(** The RMS values of a tensor of shape [T, 5, C], row by row. *)
Lemma rms_rows (T C : nat) x (eps : R) :
  shape x = [T; 5; C] →
  _rms x eps
  = Tensor [T; 5; 1]
      ((λ r, Rmax (sqrt (mean ((λ v, v ^ 2)%R <$> take C (drop (r * C) (data x))))) eps)
         <$> seq 0 (numel [T; 5])).
Proof. intros Hs. unfold _rms. rewrite Hs. reflexivity. Qed.
End rms.

(** X9. With [preserve_rms] on, for a tensor of shape [T, 5, C]: if every
    row (one frame, one band) of the gained tensor has an RMS above the
    floor 1e-6, then the edited tensor has, row by row, the RMS of the
    original tensor. *)
Theorem rms_is_preserved (p : preset) (T C : nat) (x : tensor) :
  PRESET_PRESERVE_RMS p = true → shape x = [T; 5; C] →
  Forall (λ v, (v > 1/1000000)%R) (data (_rms (gained p x) (1/1000000))) →
  _rms (edit p x) (1/1000000) = _rms x (1/1000000).
Proof.
  intros Hrms Hs Hbig. unfold edit. rewrite Hrms. fold (gained p x).
  assert (Hsg : shape (gained p x) = [T; 5; C]).
  { unfold gained. simpl. by apply shape_ema_smooth. }
  rewrite (rms_rows T C (gained p x)) in Hbig by done.
  rewrite (rms_rows T C (mul_rows _ _)) by done.
  rewrite (rms_rows T C (gained p x)), (rms_rows T C x) by done.
  f_equal. unfold mul_rows, tzip, dim. cbn [shape data]. rewrite Hsg. cbn [nth].
  cbn [data] in Hbig.
  rewrite zip_with_fmap_l, zip_with_fmap_r, zip_with_diag.
  apply list_fmap_ext. intros i r Hr.
  apply lookup_seq in Hr as [-> Hr]. rewrite Nat.add_0_l in *.
  rewrite row_of_mul_rows, nth_fmap_seq by done.
  apply Forall_fmap, Forall_lookup with (i := i) (x := i) in Hbig;
    [| by apply lookup_seq_lt].
  unfold compose in Hbig. cbn beta in Hbig. revert Hbig.
  set (ro := sqrt (mean ((λ v, v ^ 2)%R <$> take C (drop (i * C) (data x))))).
  set (re := sqrt (mean ((λ v, v ^ 2)%R <$> take C (drop (i * C) (data (gained p x)))))).
  intros Hbig.
  assert (Hre : Rmax re (1/1000000) = re).
  { destruct (Rle_lt_dec re (1/1000000)) as [Hle|Hlt];
      [rewrite Rmax_right in Hbig by lra; lra | apply Rmax_left; lra]. }
  rewrite Hre in *.
  pose proof (Rmax_r ro (1/1000000)) as Hro.
  rewrite rms_scaled.
  - fold re. replace (Rmax ro (1/1000000) / re * re)%R with (Rmax ro (1/1000000))
      by (field; lra).
    apply Rmax_left. lra.
  - apply Rlt_le, Rdiv_lt_0_compat; lra.
Qed.

Lemma gained_single :
  gained preset_rms x_single
  = Tensor [1; 5; 2] [12; 12; 12; 12; 3/2; 3/2; 3/100; 3/100; 3/100; 3/100]%R.
Proof.
  unfold gained. rewrite ema_smooth_idle by (left; unfold dim; simpl; lia).
  apply tensor_eq; [reflexivity |]. cbn. list_of_reals.
Qed.

Lemma rms_above_floor (m : R) :
  (1/1000000 * (1/1000000) < m)%R → (Rmax (sqrt m) (1/1000000) > 1/1000000)%R.
Proof.
  intros Hm. apply Rlt_le_trans with (sqrt m); [| apply Rmax_l].
  rewrite <- (sqrt_square (1/1000000)) at 1 by lra.
  apply sqrt_lt_1_alt. lra.
Qed.

Lemma rms_is_preserved_witness :
  _rms (edit preset_rms x_single) (1/1000000) = _rms x_single (1/1000000).
Proof.
  apply (rms_is_preserved preset_rms 1 2 x_single).
  - reflexivity.
  - reflexivity.
  - rewrite gained_single. unfold _rms.
    cbn [shape data last default removelast app numel foldr Nat.mul seq
         fmap list_fmap].
    repeat (apply Forall_cons_2; [apply rms_above_floor; unfold mean; simpl; lra |]).
    apply Forall_nil_2.
Defined.

(** ** The post stage *)

Lemma tmap_one (x : tensor) : tmap (λ v, v * 1)%R x = x.
Proof.
  apply tensor_eq; [done |]. simpl.
  induction (data x) as [|v l IH]; simpl; [done |]. f_equal; [lra | done].
Qed.

(** X10. With the clamp off, the global gain is linear: the output under
    global gain [k] is the output under global gain 1 with every element
    multiplied by [k]; skipping the multiplication when the gain is exactly
    1 does not show. *)
Theorem global_gain_is_linear (p : preset) (k : R) (x : tensor) :
  (PRESET_CLAMP_STD p <= 0)%R →
  pipeline (with_global_gain p k) x
  = tmap (λ v, v * k)%R (pipeline (with_global_gain p 1) x).
Proof.
  intros Hc. unfold pipeline, clamp_stage, pre_clamp, global_gain.
  cbn [with_global_gain PRESET_CLAMP_STD PRESET_GLOBAL_GAIN].
  rewrite !(bool_decide_eq_false_2 (_ > _)%R) by lra.
  rewrite (bool_decide_eq_false_2 (1%R ≠ 1%R)) by (intros Hne; by apply Hne).
  change (blend (with_global_gain p k) x (edit (with_global_gain p k) x))
    with (blend (with_global_gain p 1) x (edit (with_global_gain p 1) x)).
  case_bool_decide as Hk; [done |].
  rewrite Hk. by rewrite tmap_one.
Qed.

Lemma global_gain_is_linear_witness :
  pipeline (with_global_gain HuMoLipsyncSuppress 2) x_example
  = tmap (λ v, v * 2)%R (pipeline (with_global_gain HuMoLipsyncSuppress 1) x_example).
Proof.
  apply (global_gain_is_linear HuMoLipsyncSuppress 2 x_example).
  simpl. lra.
Defined.

(** X11. With the clamp on, an element of the pre-clamp tensor that lies in
    the window [lo, hi] is kept, one below [lo] becomes [lo], one above [hi]
    becomes [hi], position by position. *)
Theorem clamp_acts_per_element (p : preset) (x : tensor) (i : nat) (v : R) :
  (PRESET_CLAMP_STD p > 0)%R →
  data (pre_clamp p x) !! i = Some v →
  let lo := clamp_lo p (pre_clamp p x) in
  let hi := clamp_hi p (pre_clamp p x) in
  ((lo <= v <= hi)%R → data (pipeline p x) !! i = Some v)
  ∧ ((v < lo)%R → data (pipeline p x) !! i = Some lo)
  ∧ ((hi < v)%R → data (pipeline p x) !! i = Some hi).
Proof.
  intros Hc Hv lo hi.
  pose proof (clamp_window p Hc (pre_clamp p x)) as Hw.
  fold lo hi in Hw.
  assert (Hout : data (pipeline p x) !! i = Some (clamp lo hi v)).
  { unfold pipeline. rewrite clamp_stage_on by done. simpl.
    by rewrite list_lookup_fmap, Hv. }
  rewrite Hout. unfold clamp, Rmin, Rmax.
  repeat split; intros Hcase; f_equal; repeat destruct (Rle_dec _ _); lra.
Qed.

Lemma clamp_acts_per_element_witness :
  data (pipeline preset_clamp x_clamp) !! 4 = Some 0%R.
Proof.
  assert (Hc : (PRESET_CLAMP_STD preset_clamp > 0)%R) by (simpl; lra).
  assert (Hv : data (pre_clamp preset_clamp x_clamp) !! 4 = Some 0%R)
    by (rewrite pre_clamp_example; reflexivity).
  apply (clamp_acts_per_element preset_clamp x_clamp 4 0 Hc Hv).
  unfold clamp_lo, clamp_hi. rewrite pre_clamp_example. cbn [data].
  rewrite mean_example, std_example. simpl.
  unfold Rmax. destruct (Rle_dec _ _); lra.
Defined.
